(** * Email automation: a shallow embedding of [main.py]

    The development follows the pipeline of the program: text helpers
    (the Python string methods the code calls), the e-mail pattern, row
    validation, template rendering, CSV normalisation, the dispatcher with
    its retry loop, the run log and the orchestrator loop.

    Conventions of the embedding.
    - A Python [str] is a [string]: a sequence of bytes holding UTF-8 text.
      Character classes are those of the ASCII range ([str.isspace] is
      true there for 9-13, 28-31 and 32); white space outside ASCII is
      carried as ordinary text.
    - A row ([Dict[str, str]]) is a [gmap string string].
    - The outside world (file system, SMTP server, clock, [time.sleep]) is
      an explicit state with a trace of events; the SMTP server and the
      clock are oracles indexed by the number of earlier uses.
    - Floats (the back-off factor, the rate) are rationals; NaN and the
      infinities are not represented.
    - [EmailMessage] is a plain record: header assignment and
      [set_content] are construction steps that always succeed.
    - Console output through [logger] is not part of the model, except the
      dry-run preview block. *)

From Stdlib Require Import String Ascii List ZArith QArith Qpower Bool Lia Lqa.
From stdpp Require Import base option list gmap strings pretty.

(** ** Text helpers *)

Module Text.

(** [str.isspace] on one character of the ASCII range. *)
Definition isspace (c : ascii) : bool :=
  let n := nat_of_ascii c in
  ((9 <=? n) && (n <=? 13)) || ((28 <=? n) && (n <=? 32)).

Fixpoint lstrip (s : string) : string :=
  match s with
  | "" => ""
  | String c r => if isspace c then lstrip r else s
  end.

Fixpoint rstrip (s : string) : string :=
  match s with
  | "" => ""
  | String c r =>
      let r' := rstrip r in
      if isspace c && String.eqb r' "" then "" else String c r'
  end.

(** [str.strip()] *)
Definition strip (s : string) : string := rstrip (lstrip s).

Fixpoint all_space (s : string) : bool :=
  match s with
  | "" => true
  | String c r => isspace c && all_space r
  end.

(** [c in s] for a one-character needle. *)
Fixpoint contains (c : ascii) (s : string) : bool :=
  match s with
  | "" => false
  | String d r => Ascii.eqb c d || contains c r
  end.

(** [s.count(c)] for a one-character needle. *)
Fixpoint count (c : ascii) (s : string) : nat :=
  match s with
  | "" => 0
  | String d r => (if Ascii.eqb c d then 1 else 0) + count c r
  end.

(** [s.startswith(p)] *)
Fixpoint startswith (p s : string) : bool :=
  match p, s with
  | "", _ => true
  | String a p', String b s' => Ascii.eqb a b && startswith p' s'
  | String _ _, "" => false
  end.

(** [s[n:]] *)
Fixpoint drop (n : nat) (s : string) : string :=
  match n, s with
  | O, _ => s
  | S n', String _ r => drop n' r
  | S _, "" => ""
  end.

(** [s[:n]] *)
Fixpoint take (n : nat) (s : string) : string :=
  match n, s with
  | S n', String c r => String c (take n' r)
  | _, _ => ""
  end.

Definition lower_char (c : ascii) : ascii :=
  let n := nat_of_ascii c in
  if (65 <=? n) && (n <=? 90) then ascii_of_nat (n + 32) else c.

(** [str.lower()] on ASCII letters. *)
Fixpoint lower (s : string) : string :=
  match s with
  | "" => ""
  | String c r => String (lower_char c) (lower r)
  end.

(** [sep.join(l)] *)
Fixpoint join (sep : string) (l : list string) : string :=
  match l with
  | [] => ""
  | [x] => x
  | x :: rest => x +:+ sep +:+ join sep rest
  end.

(** [s.replace(a, b)] for one-character [a] and [b]. *)
Fixpoint replace_char (a b : ascii) (s : string) : string :=
  match s with
  | "" => ""
  | String c r => String (if Ascii.eqb c a then b else c) (replace_char a b r)
  end.

Definition LF : ascii := ascii_of_nat 10.
Definition CR : ascii := ascii_of_nat 13.

(** Line boundaries of [str.splitlines()] in the ASCII range other than
    the pair CR LF: LF, VT, FF, CR, FS, GS, RS. *)
Definition is_linebreak (c : ascii) : bool :=
  let n := nat_of_ascii c in
  ((10 <=? n) && (n <=? 13)) || ((28 <=? n) && (n <=? 30)).

(** [str.splitlines()]; [cur] is the current line, reversed. *)
Fixpoint splitlines_go (cur : string) (s : string) : list string :=
  match s with
  | "" => if String.eqb cur "" then [] else [String.rev cur]
  | String c r =>
      if is_linebreak c then
        String.rev cur ::
          match r with
          | String d r' =>
              if Ascii.eqb c CR && Ascii.eqb d LF
              then splitlines_go "" r'
              else splitlines_go "" r
          | "" => []
          end
      else splitlines_go (String c cur) r
  end.

Definition splitlines (s : string) : list string := splitlines_go "" s.

End Text.

(** ** Regular expressions

    The fragment of [re] that [EMAIL_REGEX] uses: literal characters,
    negated one-character classes, concatenation and [+]; matching is by
    derivatives. *)

Module Regex.

Inductive regex : Type :=
  | Void : regex
  | Eps : regex
  | Chr (c : ascii) : regex
  | NotChr (c : ascii) : regex
  | Seq (r1 r2 : regex) : regex
  | Alt (r1 r2 : regex) : regex
  | Star (r : regex) : regex.

(** [r+] *)
Definition Plus (r : regex) : regex := Seq r (Star r).

Fixpoint nullable (r : regex) : bool :=
  match r with
  | Void => false
  | Eps => true
  | Chr _ => false
  | NotChr _ => false
  | Seq r1 r2 => nullable r1 && nullable r2
  | Alt r1 r2 => nullable r1 || nullable r2
  | Star _ => true
  end.

Fixpoint deriv (a : ascii) (r : regex) : regex :=
  match r with
  | Void => Void
  | Eps => Void
  | Chr c => if Ascii.eqb a c then Eps else Void
  | NotChr c => if Ascii.eqb a c then Void else Eps
  | Seq r1 r2 =>
      if nullable r1
      then Alt (Seq (deriv a r1) r2) (deriv a r2)
      else Seq (deriv a r1) r2
  | Alt r1 r2 => Alt (deriv a r1) (deriv a r2)
  | Star r1 => Seq (deriv a r1) (Star r1)
  end.

(** The whole of [s] is matched by [r]. *)
Fixpoint fullmatch (r : regex) (s : string) : bool :=
  match s with
  | "" => nullable r
  | String a s' => fullmatch (deriv a r) s'
  end.

(** [s] without a final line feed, when it has one. *)
Fixpoint chop_final_lf (s : string) : option string :=
  match s with
  | "" => None
  | String c "" => if Ascii.eqb c Text.LF then Some "" else None
  | String c r => option_map (String c) (chop_final_lf r)
  end.

(** [re.compile("^" r "$").match(s)]: the pattern is anchored at the
    start, and [$] holds at the end of the string or just before a line
    feed that ends it. *)
Definition match_anchored (r : regex) (s : string) : bool :=
  fullmatch r s ||
  match chop_final_lf s with
  | Some s' => fullmatch r s'
  | None => false
  end.

(** The language of a pattern, as a relation. *)
Inductive lang : regex -> string -> Prop :=
  | lang_eps : lang Eps ""
  | lang_chr c : lang (Chr c) (String c "")
  | lang_notchr c d : d <> c -> lang (NotChr c) (String d "")
  | lang_seq r1 r2 s1 s2 : lang r1 s1 -> lang r2 s2 -> lang (Seq r1 r2) (s1 +:+ s2)
  | lang_alt_l r1 r2 s : lang r1 s -> lang (Alt r1 r2) s
  | lang_alt_r r1 r2 s : lang r2 s -> lang (Alt r1 r2) s
  | lang_star_nil r : lang (Star r) ""
  | lang_star_cons r s1 s2 : lang r s1 -> lang (Star r) s2 -> lang (Star r) (s1 +:+ s2).

End Regex.

(** ** Row validation *)

Abbreviation row := (gmap string string).

(** [row.get(key, "")] *)
Definition get (r : row) (key : string) : string := default "" (r !! key).

(** [EMAIL_REGEX = re.compile(r"^[^@]+@[^@]+\.[^@]+$")], without its anchors. *)
Definition EMAIL_REGEX : Regex.regex :=
  Regex.Seq (Regex.Plus (Regex.NotChr "@"))
    (Regex.Seq (Regex.Chr "@")
       (Regex.Seq (Regex.Plus (Regex.NotChr "@"))
          (Regex.Seq (Regex.Chr ".") (Regex.Plus (Regex.NotChr "@"))))).

(** [field not in row or str(row[field]).strip() == ""] *)
Definition field_missing (r : row) (field : string) : bool :=
  match r !! field with
  | None => true
  | Some v => String.eqb (Text.strip v) ""
  end.

Definition validate_row (r : row) (required_fields : list string)
  : bool * list string :=
  let errors :=
    foldl (fun errors field =>
             if field_missing r field
             then errors ++ ["Missing required field '" +:+ field +:+ "'"]
             else errors)
          [] required_fields in
  let email := Text.strip (get r "Email") in
  let errors :=
    if String.eqb email "" then errors ++ ["Email is empty"]
    else if negb (Regex.match_anchored EMAIL_REGEX email)
         then errors ++ ["Invalid email address: '" +:+ email +:+ "'"]
         else errors in
  (Nat.eqb (length errors) 0, errors).

(** The e-mail rule in the words of the specification: non-blank, exactly
    one [@], and a [.] somewhere after it. *)
Fixpoint after_at (s : string) : string :=
  match s with
  | "" => ""
  | String c r => if Ascii.eqb c "@" then r else after_at r
  end.


(** The shape the pattern accepts: exactly one [@], something before it,
    and after it a [.] that is neither the first nor the last character. *)
Fixpoint before_at (s : string) : string :=
  match s with
  | "" => ""
  | String c r => if Ascii.eqb c "@" then "" else String c (before_at r)
  end.

Fixpoint inner_dot (s : string) : bool :=
  match s with
  | String _ (String c r as t) => (Ascii.eqb c "." && negb (String.eqb r "")) || inner_dot t
  | _ => false
  end.

Definition email_shape_ok (s : string) : bool :=
  Nat.eqb (Text.count "@" s) 1 && negb (String.eqb (before_at s) "") && inner_dot (after_at s).

(** What the specification says [validate] returns: every violation, in
    the order of the required fields, then the e-mail violation. *)
Definition spec_missing_errors (r : row) (required_fields : list string)
  : list string :=
  map (fun field => "Missing required field '" +:+ field +:+ "'")
      (List.filter (field_missing r) required_fields).

Definition spec_email_errors (r : row) : list string :=
  let email := Text.strip (get r "Email") in
  if String.eqb email "" then ["Email is empty"]
  else if email_shape_ok email then []
       else ["Invalid email address: '" +:+ email +:+ "'"].

(** [required_fields] of [main]. *)
Definition REQUIRED_FIELDS : list string :=
  ["SNo"; "Name"; "Email"; "Title"; "Company"].

(** ** Results of calls that can raise *)

Inductive exn : Type :=
  | KeyError (key : string)
  | ValueError (msg : string)
  | IndexError (msg : string)
  | AttributeError (msg : string)
  | FileNotFoundError (msg : string).

(** A call returns, raises, or leaves the fragment of the library that the
    embedding covers ([NotModelled]: nothing is claimed about it). *)
Inductive outcome (A : Type) : Type :=
  | Return (a : A)
  | Raise (e : exn)
  | NotModelled.

Arguments Return {A} a.
Arguments Raise {A} e.
Arguments NotModelled {A}.

#[global] Instance outcome_ret : MRet outcome := @Return.

#[global] Instance outcome_bind : MBind outcome := fun A B f x =>
  match x with
  | Return a => f a
  | Raise e => Raise e
  | NotModelled => NotModelled
  end.

(** ** [str.format] and [str.format_map]

    Covered: literal text, the escapes [{{] and [}}], and replacement
    fields [{name}] whose name is plain.  A field with a conversion, a
    format specification, an attribute or an index ([!], [:], [.], [[])
    is [NotModelled].  Fields are processed from left to right, so the
    leftmost failure is the one that is raised. *)

Module Format.

Inductive state : Type :=
  | Literal
  | Field (name_rev : string).

Definition is_special (c : ascii) : bool :=
  Ascii.eqb c "!" || Ascii.eqb c ":" || Ascii.eqb c "." || Ascii.eqb c "[".

Definition is_digit (c : ascii) : bool :=
  let n := nat_of_ascii c in (48 <=? n) && (n <=? 57).

Fixpoint all_digits (s : string) : bool :=
  match s with
  | "" => true
  | String c r => is_digit c && all_digits r
  end.

(** An empty name is auto-numbered and a name of digits is an index: both
    address the positional arguments. *)
Definition positional (name : string) : bool := all_digits name.

Definition prepend (c : ascii) (x : outcome string) : outcome string :=
  v ← x; Return (String c v).

Fixpoint vformat (lookup : string -> outcome string) (st : state) (s : string)
  : outcome string :=
  match st with
  | Literal =>
      match s with
      | "" => Return ""
      | String c r =>
          if Ascii.eqb c "{" then
            match r with
            | "" => Raise (ValueError "Single '{' encountered in format string")
            | String d r' =>
                if Ascii.eqb d "{" then prepend "{" (vformat lookup Literal r')
                else vformat lookup (Field "") r
            end
          else if Ascii.eqb c "}" then
            match r with
            | "" => Raise (ValueError "Single '}' encountered in format string")
            | String d r' =>
                if Ascii.eqb d "}" then prepend "}" (vformat lookup Literal r')
                else Raise (ValueError "Single '}' encountered in format string")
            end
          else prepend c (vformat lookup Literal r)
      end
  | Field name_rev =>
      match s with
      | "" => Raise (ValueError "expected '}' before end of string")
      | String c r =>
          if Ascii.eqb c "}" then
            v ← lookup (String.rev name_rev);
            rest ← vformat lookup Literal r;
            Return (v +:+ rest)
          else if Ascii.eqb c "{" then
            Raise (ValueError "unexpected '{' in field name")
          else if is_special c then NotModelled
          else vformat lookup (Field (String c name_rev)) r
      end
  end.

(** [s.format] called with keyword arguments only: no positional
    argument is passed. *)
Definition lookup_kwargs (kwargs : row) (name : string) : outcome string :=
  if positional name
  then Raise (IndexError "Replacement index out of range for positional args tuple")
  else match kwargs !! name with
       | Some v => Return v
       | None => Raise (KeyError name)
       end.

Definition format (s : string) (kwargs : row) : outcome string :=
  vformat (lookup_kwargs kwargs) Literal s.

(** [s.format_map] on a [DefaultDict] built from the keyword arguments,
    whose [__missing__] returns the empty string. *)
Definition lookup_default (kwargs : row) (name : string) : outcome string :=
  if positional name
  then Raise (ValueError "Format string contains positional fields")
  else Return (default "" (kwargs !! name)).

Definition format_map_default (s : string) (kwargs : row) : outcome string :=
  vformat (lookup_default kwargs) Literal s.

End Format.

(** ** Template rendering *)

(** [d.setdefault(k, v)] *)
Definition setdefault (d : row) (k v : string) : row :=
  match d !! k with
  | Some _ => d
  | None => <[k := v]> d
  end.

Definition LF_str : string := String Text.LF "".

Definition render_template (template : string) (r : row)
  : outcome (string * string) :=
  let safe_row :=
    foldl (fun d k => setdefault d k "") r ["Name"; "Title"; "Company"; "SNo"] in
  let lines := Text.splitlines template in
  let default_subject :=
    "Hello " +:+ get safe_row "Name" +:+ " — Opportunity to connect" in
  sb ← match lines with
        | line0 :: rest =>
            if Text.startswith "subject:" (Text.lower line0) then
              let subject_line := Text.strip (Text.drop 8 line0) in
              subject ← Format.format subject_line safe_row;
              Return (subject, Text.lstrip (Text.join LF_str rest))
            else Return (default_subject, template)
        | [] => Return (default_subject, template)
        end;
  let '(subject, body) := sb in
  body_rendered ←
    match Format.format body safe_row with
    | Raise (KeyError missing) => Format.format_map_default body safe_row
    | other => other
    end;
  Return (subject, body_rendered).

(** [load_template] when the template file is not found. *)
Definition DEFAULT_TEMPLATE : string :=
  "Subject: Connecting about potential opportunities at {Company}" +:+ LF_str +:+ LF_str +:+
  "Hello {Name}," +:+ LF_str +:+ LF_str +:+
  "I hope you're doing well. I'm reaching out because I'm interested in roles" +:+
  " at {Company} that match my background. I saw your profile as {Title} " +:+
  "and thought you'd be the best person to connect with." +:+ LF_str +:+ LF_str +:+
  "A quick snapshot: I'm a software engineer with experience in Java, Python and cloud technologies." +:+ LF_str +:+ LF_str +:+
  "I've attached my resume for your review. If appropriate, I'd appreciate 10-15 minutes of your time for a quick chat." +:+ LF_str +:+ LF_str +:+
  "Thanks," +:+ LF_str +:+
  "Your Name" +:+ LF_str +:+
  "Email: your.email@example.com" +:+ LF_str.

(** ** CSV ingestion *)

Module Csv.

Definition TAB : ascii := ascii_of_nat 9.

(** [re.sub(r",\s+", ",", s)]: every comma that is followed by white
    space loses the whole run of white space after it.  [after_comma]
    holds while the scan is inside such a run or just after a comma. *)
Fixpoint collapse_go (after_comma : bool) (s : string) : string :=
  match s with
  | "" => ""
  | String c r =>
      if after_comma && Text.isspace c then collapse_go true r
      else String c (collapse_go (Ascii.eqb c ",") r)
  end.

Definition collapse_comma_space (s : string) : string := collapse_go false s.

(** The byte-order mark U+FEFF in UTF-8. *)
Definition BOM : string :=
  String (ascii_of_nat 239) (String (ascii_of_nat 187) (String (ascii_of_nat 191) "")).

(** Decoding with [utf-8-sig] drops one leading byte-order mark. *)
Definition decode_utf8_sig (bytes : string) : string :=
  if Text.startswith BOM bytes then Text.drop 3 bytes else bytes.

(** [s.replace] of every byte-order mark by the empty string. *)
Fixpoint remove_bom (s : string) : string :=
  match s with
  | "" => ""
  | String a t =>
      if Text.startswith BOM s
      then match t with
           | String _ (String _ r) => remove_bom r
           | _ => s
           end
      else String a (remove_bom t)
  end.

(** [fn.strip()] followed by the removal of byte-order marks. *)
Definition normalize_name (k : string) : string := remove_bom (Text.strip k).

(** A value of a [DictReader] row: a string, [None] (the [restval] of a
    short record) or the list of the surplus fields of a long record. *)
Inductive cell : Type :=
  | CStr (s : string)
  | CNone
  | CList (l : list string).

(** A key of a [DictReader] row: a field name, or [None] (the [restkey]). *)
Definition key : Type := option string.

(** [d[k] = v] on an insertion-ordered dictionary. *)
Fixpoint dict_set (d : list (key * cell)) (k : key) (v : cell) : list (key * cell) :=
  match d with
  | [] => [(k, v)]
  | (k', v') :: rest =>
      if decide (k' = k) then (k, v) :: rest else (k', v') :: dict_set rest k v
  end.

(** [dict(zip(fieldnames, record))] *)
Fixpoint dict_zip (d : list (key * cell)) (fieldnames record : list string)
  : list (key * cell) :=
  match fieldnames, record with
  | f :: fs, x :: xs => dict_zip (dict_set d (Some f) (CStr x)) fs xs
  | _, _ => d
  end.

(** One row of [DictReader.__next__] for a non-empty record. *)
Definition dict_row (fieldnames record : list string) : list (key * cell) :=
  let d := dict_zip [] fieldnames record in
  let lf := length fieldnames in
  let lr := length record in
  if lf <? lr then dict_set d None (CList (List.skipn lf record))
  else foldl (fun d k => dict_set d (Some k) CNone) d (List.skipn lr fieldnames).

(** The dictionary comprehension of [read_csv]: keys and values are
    trimmed; a value that is a list has no [strip]. *)
Fixpoint normalize_row (d : list (key * cell)) (acc : row) : outcome row :=
  match d with
  | [] => Return acc
  | (k, v) :: rest =>
      let k' := match k with
                | Some name => if String.eqb name "" then "" else normalize_name name
                | None => ""
                end in
      match v with
      | CStr s => normalize_row rest (<[k' := Text.strip s]> acc)
      | CNone => normalize_row rest (<[k' := ""]> acc)
      | CList _ => Raise (AttributeError "'list' object has no attribute 'strip'")
      end
  end.

Fixpoint normalize_rows (fieldnames : list string) (records : list (list string))
  : outcome (list row) :=
  match records with
  | [] => Return []
  | [] :: rest => normalize_rows fieldnames rest
  | record :: rest =>
      r ← normalize_row (dict_row fieldnames record) ∅;
      rs ← normalize_rows fieldnames rest;
      Return (r :: rs)
  end.

Section ReadCsv.

(** The two entry points of the [csv] library that [read_csv] calls are
    parameters: [sniff sample] is the delimiter of the dialect that
    [Sniffer().sniff] detects ([None] when it raises), and
    [reader delimiter text] is the list of the records that [csv.reader]
    yields. *)
Variable sniff : string -> option ascii.
Variable reader : ascii -> string -> list (list string).

(** [read_csv] from the decoded text on. *)
Definition read_csv_text (raw : string) : outcome (list row) :=
  let normalized := Text.replace_char TAB "," raw in
  let normalized := collapse_comma_space normalized in
  let sample := Text.take (N.to_nat 8192) normalized in
  let delimiter := default ","%char (sniff sample) in
  match reader delimiter normalized with
  | [] => Return []
  | fieldnames :: records =>
      let fieldnames :=
        match fieldnames with
        | [] => fieldnames
        | _ => map normalize_name fieldnames
        end in
      normalize_rows fieldnames records
  end.

Definition read_csv (files : gmap string string) (path : string)
  : outcome (list row) :=
  match files !! path with
  | None => Raise (FileNotFoundError ("CSV file not found: " +:+ path))
  | Some bytes => read_csv_text (decode_utf8_sig bytes)
  end.

End ReadCsv.

(** The same content written with one space after each comma. *)
Fixpoint space_after_commas (s : string) : string :=
  match s with
  | "" => ""
  | String c r =>
      if Ascii.eqb c "," then String c (String " " (space_after_commas r))
      else String c (space_after_commas r)
  end.

End Csv.

(** ** The outside world *)

(** What one SMTP session (connect, EHLO, STARTTLS, EHLO, login,
    send_message) comes to. *)
Inductive smtp_reply : Type :=
  | Accepted
  | TransportError (e : string)   (* smtplib.SMTPException or socket.error *)
  | OtherError (e : string).      (* any other exception *)

Record attachment : Type := Attachment {
  att_data : string;
  att_maintype : string;
  att_subtype : string;
  att_filename : string
}.

Record EmailMessage : Type := Message {
  msg_from : string;
  msg_to : string;
  msg_subject : string;
  msg_content : string;
  msg_attachments : list attachment
}.

(** The two call sites of [time.sleep]. *)
Inductive sleep_site : Type :=
  | Backoff      (* the retry loop of send_email *)
  | RateLimit.   (* the loop of main *)

Inductive event : Type :=
  | Preview (to subject body : string) (attachment : option (string * bool))
  | Connect (host : string) (port : Z) (attempt : Z)
  | Delivered (m : EmailMessage)
  | Sleep (site : sleep_site) (seconds : Q).

Record world : Type := World {
  files : gmap string string;       (* path to content *)
  events : list event;              (* oldest first *)
  server : nat -> smtp_reply;       (* reply to the n-th SMTP session *)
  sessions : nat;                   (* SMTP sessions opened so far *)
  utcnow : nat -> string;           (* n-th reading of the clock, ISO-8601 *)
  clock_reads : nat
}.

Definition emit (e : event) (w : world) : world :=
  World (files w) (events w ++ [e]) (server w) (sessions w) (utcnow w) (clock_reads w).

(** [os.path.exists] *)
Definition path_exists (w : world) (path : string) : bool :=
  bool_decide (is_Some (files w !! path)).

(** ** The dispatcher *)

(** [Path(filepath).name] *)
Fixpoint path_name_go (cur : string) (s : string) : string :=
  match s with
  | "" => String.rev cur
  | String c r => if Ascii.eqb c "/" then path_name_go "" r else path_name_go (String c cur) r
  end.

Definition path_name (filepath : string) : string := path_name_go "" filepath.

(** Position of the last [.] of [s], counted from [i]. *)
Fixpoint rfind_dot (i : nat) (s : string) : option nat :=
  match s with
  | "" => None
  | String c r =>
      match rfind_dot (S i) r with
      | Some j => Some j
      | None => if Ascii.eqb c "." then Some i else None
      end
  end.

(** [Path(filepath).suffix] *)
Definition path_suffix (filepath : string) : string :=
  let name := path_name filepath in
  match rfind_dot 0 name with
  | Some i => if (0 <? i) && (i <? String.length name - 1) then Text.drop i name else ""
  | None => ""
  end.

(** [inl e]: the call raises [e]. *)
Definition attach_file_to_message (msg : EmailMessage) (filepath : string) (w : world)
  : exn + EmailMessage :=
  match files w !! filepath with
  | None => inl (FileNotFoundError ("Attachment not found: " +:+ filepath))
  | Some data =>
      let maintype := "application" in
      let subtype :=
        if String.eqb (Text.lower (path_suffix filepath)) ".pdf"
        then "pdf" else "octet-stream" in
      inr (Message (msg_from msg) (msg_to msg) (msg_subject msg) (msg_content msg)
             (msg_attachments msg ++
                [Attachment data maintype subtype (path_name filepath)]))
  end.

(** [str(e)] *)
Definition exn_str (e : exn) : string :=
  match e with
  | KeyError k => "'" +:+ k +:+ "'"
  | ValueError m | IndexError m | AttributeError m | FileNotFoundError m => m
  end.

Section SendEmail.

Variables (smtp_host : string) (smtp_port : Z).
Variables (max_retries : Z) (retry_backoff : Q).
Variable msg : EmailMessage.

(** The [while attempt < max_retries] loop.  [fuel] bounds the number of
    iterations; [None] is returned only when it runs out. *)
Fixpoint send_loop (fuel : nat) (attempt : Z) (w : world)
  : option ((bool * string) * world) :=
  if (attempt <? max_retries)%Z then
    match fuel with
    | O => None
    | S fuel' =>
        let w := emit (Connect smtp_host smtp_port (attempt + 1)) w in
        let reply := server w (sessions w) in
        let w := World (files w) (events w) (server w) (S (sessions w))
                       (utcnow w) (clock_reads w) in
        match reply with
        | Accepted => Some ((true, "sent"), emit (Delivered msg) w)
        | TransportError e =>
            let attempt := (attempt + 1)%Z in
            if (attempt >=? max_retries)%Z then
              Some ((false, "smtp error after " +:+ pretty attempt +:+ " attempts: " +:+ e), w)
            else
              let sleep_for := Qpower retry_backoff attempt in
              send_loop fuel' attempt (emit (Sleep Backoff sleep_for) w)
        | OtherError e => Some ((false, "unexpected error: " +:+ e), w)
        end
    end
  else Some ((false, "max retries reached"), w).

End SendEmail.

Definition send_email
    (gmail_user gmail_app_pass to_email subject body : string)
    (attachment_path : option string) (dry_run : bool)
    (smtp_host : string) (smtp_port : Z) (max_retries : Z) (retry_backoff : Q)
    (w : world) : option ((bool * string) * world) :=
  let msg := Message gmail_user to_email subject body [] in
  (* a path that is None or empty is falsy: nothing is attached *)
  let attachment_path :=
    match attachment_path with
    | Some p => if String.eqb p "" then None else Some p
    | None => None
    end in
  let attached :=
    match attachment_path with
    | Some p => attach_file_to_message msg p w
    | None => inr msg
    end in
  match attached with
  | inl e => Some ((false, "Attachment error: " +:+ exn_str e), w)
  | inr msg =>
      if dry_run then
        let truncated_body :=
          if 1000 <? String.length body then Text.take 1000 body +:+ "..." else body in
        let w := emit (Preview to_email subject truncated_body
                         (option_map (fun p => (p, path_exists w p)) attachment_path)) w in
        Some ((true, "dry-run previewed"), w)
      else
        send_loop smtp_host smtp_port max_retries retry_backoff msg
          (Z.to_nat max_retries) 0 w
  end.

(** The defaults of [send_email]. *)
Definition DEFAULT_SMTP_HOST : string := "smtp.gmail.com".
Definition DEFAULT_SMTP_PORT : Z := 587.
Definition DEFAULT_MAX_RETRIES : Z := 3.
Definition DEFAULT_RETRY_BACKOFF : Q := 2.

(** ** The run log *)

Module CsvWriter.

Definition DQUOTE : ascii := ascii_of_nat 34.

(** A field is quoted when it holds the delimiter, the quote character or
    a character of the line terminator. *)
Definition needs_quotes (field : string) : bool :=
  Text.contains "," field || Text.contains DQUOTE field
  || Text.contains Text.CR field || Text.contains Text.LF field.

Fixpoint double_quotes (s : string) : string :=
  match s with
  | "" => ""
  | String c r =>
      if Ascii.eqb c DQUOTE then String c (String c (double_quotes r))
      else String c (double_quotes r)
  end.

Definition quote_field (field : string) : string :=
  if needs_quotes field
  then String DQUOTE (double_quotes field) +:+ String DQUOTE ""
  else field.

(** [writer.writerow(fields)] for two fields or more, in the default
    dialect: the text that is written. *)
Definition writerow (fields : list string) : string :=
  Text.join "," (map quote_field fields) +:+ String Text.CR (String Text.LF "").

End CsvWriter.

Definition LOG_HEADER : list string :=
  ["timestamp"; "SNo"; "Name"; "Email"; "Company"; "Title"; "status"; "message"].

(** The fields of the row that [write_log_row] writes, given the reading
    of the clock. *)
Definition log_fields (timestamp : string) (r : row) (status message : string)
  : list string :=
  [timestamp; get r "SNo"; get r "Name"; get r "Email"; get r "Company";
   get r "Title"; status; message].

Definition write_log_row (log_path : string) (r : row) (status message : string)
    (w : world) : world :=
  let header := LOG_HEADER in
  let exists_ := path_exists w log_path in
  (* mode "a": the file is created when absent, and writes go to its end *)
  let old := default "" (files w !! log_path) in
  let text := if exists_ then "" else CsvWriter.writerow header in
  let timestamp := utcnow w (clock_reads w) in
  let text := text +:+ CsvWriter.writerow (log_fields timestamp r status message) in
  World (<[log_path := old +:+ text]> (files w)) (events w) (server w) (sessions w)
        (utcnow w) (S (clock_reads w)).

(** ** The orchestrator *)

Record Args : Type := {
  arg_csv : string;
  arg_resume : string;
  arg_template : string;
  arg_send : bool;
  arg_emails_per_minute : Q;
  arg_log : string;
  arg_max_retries : Z
}.

Record counts : Type := Counts {
  total : nat;
  sent_count : nat;
  failed_count : nat;
  skipped_count : nat
}.

(** [time.sleep(seconds)] *)
Definition sleep (site : sleep_site) (seconds : Q) (w : world) : world :=
  emit (Sleep site seconds) w.

(** [max(args.emails_per_minute, 0.1)] and [60.0 / emails_per_minute] *)
Definition interval (args : Args) : Q :=
  let emails_per_minute :=
    if Qle_bool (1 # 10) (arg_emails_per_minute args)
    then arg_emails_per_minute args else (1 # 10) in
  60 / emails_per_minute.

(** [x or y] on an optional string: [None] and the empty string are falsy. *)
Definition or_else (x : option string) (y : string) : string :=
  match x with
  | Some s => if String.eqb s "" then y else s
  | None => y
  end.

Section Orchestrator.

Variable args : Args.
Variables gmail_user gmail_app_pass : option string.
Variable template_text : string.
Variable len_rows : nat.

(** The body of [for raw_row in rows].  The result is [None] when the
    retry loop runs out of fuel; [Raise] is an exception that leaves
    [main]. *)
Definition process_row (raw_row : row) (c : counts) (w : world)
  : option (outcome counts * world) :=
  let total := S (total c) in
  let r := raw_row in
  let '(is_valid, errors) := validate_row r REQUIRED_FIELDS in
  if negb is_valid then
    let reason := Text.join "; " errors in
    let w := write_log_row (arg_log args) r "skipped" reason w in
    Some (Return (Counts total (sent_count c) (failed_count c) (S (skipped_count c))), w)
  else
    match render_template template_text r with
    | Raise e => Some (Raise e, w)
    | NotModelled => Some (NotModelled, w)
    | Return (subject, body) =>
        match r !! "Email" with
        | None => Some (Raise (KeyError "Email"), w)
        | Some to_email =>
            '(success, message, w) ←
              send_email (or_else gmail_user "dry-run@example.com")
                (or_else gmail_app_pass "") to_email subject body
                (if path_exists w (arg_resume args) then Some (arg_resume args) else None)
                (negb (arg_send args))
                DEFAULT_SMTP_HOST DEFAULT_SMTP_PORT (arg_max_retries args)
                DEFAULT_RETRY_BACKOFF w;
            let '(c, w) :=
              if success : bool then
                if arg_send args then
                  (Counts total (S (sent_count c)) (failed_count c) (skipped_count c),
                   write_log_row (arg_log args) r "sent" message w)
                else
                  (Counts total (sent_count c) (failed_count c) (skipped_count c),
                   write_log_row (arg_log args) r "previewed" message w)
              else
                (Counts total (sent_count c) (S (failed_count c)) (skipped_count c),
                 write_log_row (arg_log args) r "failed" message w) in
            let w := if total <? len_rows then sleep RateLimit (interval args) w else w in
            Some (Return c, w)
        end
    end.

Fixpoint process_rows (rows : list row) (c : counts) (w : world)
  : option (outcome counts * world) :=
  match rows with
  | [] => Some (Return c, w)
  | raw_row :: rest =>
      '(res, w) ← process_row raw_row c w;
      match res with
      | Return c => process_rows rest c w
      | Raise e => Some (Raise e, w)
      | NotModelled => Some (NotModelled, w)
      end
  end.

End Orchestrator.

(** How a run of [main] ends. *)
Inductive exit : Type :=
  | Exit0 (summary : counts)   (* the summary is printed *)
  | Exit1                      (* sys.exit(1) *)
  | Uncaught (e : exn)         (* an exception leaves main *)
  | Unknown.                   (* outside the modelled fragment *)

(** [load_template] *)
Definition load_template (path : string) (w : world) : string :=
  match files w !! path with
  | Some text => text
  | None => DEFAULT_TEMPLATE
  end.

Definition is_falsy (x : option string) : bool :=
  match x with
  | Some s => String.eqb s ""
  | None => true
  end.

Section Main.

Variable sniff : string -> option ascii.
Variable reader : ascii -> string -> list (list string).

Definition main (args : Args) (gmail_user gmail_app_pass : option string) (w : world)
  : option (exit * world) :=
  if arg_send args && (is_falsy gmail_user || is_falsy gmail_app_pass)
  then Some (Exit1, w)
  else
    let template_text := load_template (arg_template args) w in
    match Csv.read_csv sniff reader (files w) (arg_csv args) with
    | Raise _ => Some (Exit1, w)
    | NotModelled => Some (Unknown, w)
    | Return rows =>
        '(res, w) ← process_rows args gmail_user gmail_app_pass template_text
                      (length rows) rows (Counts 0 0 0 0) w;
        Some (match res with
              | Return c => Exit0 c
              | Raise e => Uncaught e
              | NotModelled => Unknown
              end, w)
    end.

End Main.

(** ** Notions used to state the properties *)

(** The text of a log: its rows as the writer lays them out. *)
Fixpoint log_text (rows : list (list string)) : string :=
  match rows with
  | [] => ""
  | fields :: rest => CsvWriter.writerow fields +:+ log_text rest
  end.

(** No attachment is asked for (no path, or an empty one), or the file
    at the path exists. *)
Definition attachment_ok (w : world) (attachment_path : option string) : bool :=
  match attachment_path with
  | Some p => String.eqb p "" || path_exists w p
  | None => true
  end.

(** The message that [send_email] builds once the attachment is read. *)
Definition built_message (gmail_user to_email subject body : string)
    (attachment_path : option string) (w : world) : EmailMessage :=
  let msg := Message gmail_user to_email subject body [] in
  match attachment_path with
  | Some p =>
      if String.eqb p "" then msg
      else match attach_file_to_message msg p w with
           | inr m => m
           | inl _ => msg
           end
  | None => msg
  end.

(** The preview that a dry run shows. *)
Definition preview_event (to_email subject body : string)
    (attachment_path : option string) : event :=
  Preview to_email subject
    (if 1000 <? String.length body then Text.take 1000 body +:+ "..." else body)
    match attachment_path with
    | Some p => if String.eqb p "" then None else Some (p, true)
    | None => None
    end.

(** [w] after the events [evs] and [n] more SMTP sessions. *)
Definition advance (evs : list event) (n : nat) (w : world) : world :=
  World (files w) (events w ++ evs) (server w) (sessions w + n) (utcnow w) (clock_reads w).





(** A string of the accepted shape: [a @ b . c] with [a], [b], [c]
    non-empty and free of [@]. *)
Definition email_parts (s a b c : string) : Prop :=
  s = a +:+ String "@" (b +:+ String "." c) /\
  (a <> "" /\ Text.contains "@" a = false) /\
  (b <> "" /\ Text.contains "@" b = false) /\
  (c <> "" /\ Text.contains "@" c = false).

(** ** Notions used to state the properties of the orchestrator *)



(** The rate-limit sleep that follows a dispatched row, if any. *)
Definition rate_sleep (args : Args) (slept : bool) : list event :=
  if slept then [Sleep RateLimit (interval args)] else [].









(** ** Sample data *)

Definition sample_args (send : bool) : Args :=
  {| arg_csv := "sample_hr.csv"; arg_resume := "resume.pdf";
     arg_template := "email_template.txt"; arg_send := send;
     arg_emails_per_minute := 20; arg_log := "send_log.csv";
     arg_max_retries := 3 |}.

Definition sample_world : world :=
  World ∅ [] (fun n => if n <? 2 then TransportError "reset" else Accepted) 0
    (fun n => "2024-05-01T10:00:0" +:+ pretty n) 0.

Definition sample_good : row :=
  {["SNo" := "1"; "Name" := "Jo"; "Email" := "jo@x.org"; "Title" := "HR";
    "Company" := "Acme"]}.



(** A message handed to the SMTP server. *)
Definition is_delivered (e : event) : bool :=
  match e with
  | Delivered _ => true
  | _ => false
  end.



(** * Properties *)

#[local] Arguments Ascii.eqb : simpl never.
#[local] Arguments String.eqb : simpl never.

(** ** Strings *)

Section StringFacts.

Lemma str_app_nil_l (s : string) : "" +:+ s = s.
Proof. reflexivity. Qed.

Lemma str_app_cons (c : ascii) (s t : string) : String c s +:+ t = String c (s +:+ t).
Proof. reflexivity. Qed.

Lemma str_app_nil_r (s : string) : s +:+ "" = s.
Proof. induction s as [|c s IH]; [reflexivity|]. rewrite str_app_cons, IH. reflexivity. Qed.

Lemma str_app_assoc (s t u : string) : (s +:+ t) +:+ u = s +:+ (t +:+ u).
Proof.
  induction s as [|c s IH]; [reflexivity|].
  rewrite !str_app_cons, IH. reflexivity.
Qed.

Lemma str_app_eq_nil (s t : string) : s +:+ t = "" -> s = "" /\ t = "".
Proof.
  destruct s; [rewrite str_app_nil_l; intros ->; auto|].
  rewrite str_app_cons. discriminate.
Qed.

Lemma str_app_eq_cons (s t u : string) (a : ascii) :
  s +:+ t = String a u ->
  (s = "" /\ t = String a u) \/ (exists s', s = String a s' /\ u = s' +:+ t).
Proof.
  destruct s as [|c s]; [rewrite str_app_nil_l; left; auto|].
  rewrite str_app_cons. intros [= -> <-]. right. eauto.
Qed.

Lemma eqb_nil_true (s : string) : String.eqb s "" = true <-> s = "".
Proof. apply String.eqb_eq. Qed.

Lemma eqb_nil_false (s : string) : String.eqb s "" = false <-> s <> "".
Proof. apply String.eqb_neq. Qed.

Lemma contains_app (c : ascii) (s t : string) :
  Text.contains c (s +:+ t) = Text.contains c s || Text.contains c t.
Proof.
  induction s as [|d s IH]; [reflexivity|].
  rewrite str_app_cons. simpl. rewrite IH, orb_assoc. reflexivity.
Qed.

Lemma count_app (c : ascii) (s t : string) :
  Text.count c (s +:+ t) = Text.count c s + Text.count c t.
Proof.
  induction s as [|d s IH]; [reflexivity|].
  rewrite str_app_cons. simpl. rewrite IH. lia.
Qed.

Lemma count_zero (c : ascii) (s : string) :
  Text.count c s = 0 <-> Text.contains c s = false.
Proof.
  induction s as [|d s IH]; simpl; [tauto|].
  destruct (Ascii.eqb c d); simpl; [split; [lia|discriminate]|exact IH].
Qed.

End StringFacts.

(** ** The matcher agrees with the language of the pattern *)

Section RegexFacts.

Import Regex.

Lemma nullable_lang (r : regex) : nullable r = true <-> lang r "".
Proof.
  induction r as [| |c|c|r1 IH1 r2 IH2|r1 IH1 r2 IH2|r IH]; simpl.
  - split; [discriminate|]. inversion 1.
  - split; [constructor|reflexivity].
  - split; [discriminate|]. inversion 1.
  - split; [discriminate|]. inversion 1.
  - rewrite andb_true_iff, IH1, IH2. split.
    + intros [H1 H2]. change "" with ("" +:+ ""). by constructor.
    + inversion 1 as [| | |? ? s1 s2 H1 H2 [E1 E2] E| | | |]; subst.
      apply str_app_eq_nil in E as [-> ->]. auto.
  - rewrite orb_true_iff, IH1, IH2. split.
    + intros [H|H]; [by apply lang_alt_l|by apply lang_alt_r].
    + inversion 1; subst; auto.
  - split; [constructor|reflexivity].
Qed.

Lemma lang_star_cons_inv (r : regex) (s : string) :
  lang (Star r) s ->
  forall a u, s = String a u ->
  exists s1 s2, u = s1 +:+ s2 /\ lang r (String a s1) /\ lang (Star r) s2.
Proof.
  intros H. remember (Star r) as q eqn:Eq. revert Eq.
  induction H as [| | | | | |r'|r' s1 s2 H1 _ H2 IH2]; intros Eq; try discriminate.
  injection Eq as ->. intros a u E.
  apply str_app_eq_cons in E as [[-> ->]|(s1' & -> & ->)].
  - by apply IH2.
  - exists s1', s2. auto.
Qed.

Lemma deriv_lang (r : regex) (a : ascii) (s : string) :
  lang (deriv a r) s <-> lang r (String a s).
Proof.
  revert s.
  induction r as [| |c|c|r1 IH1 r2 IH2|r1 IH1 r2 IH2|r IH]; intros s; simpl.
  - split; inversion 1.
  - split; inversion 1.
  - destruct (Ascii.eqb_spec a c) as [->|Hne].
    + split; inversion 1; subst; constructor.
    + split; inversion 1; subst; congruence.
  - destruct (Ascii.eqb_spec a c) as [->|Hne].
    + split; inversion 1; subst; congruence.
    + split; inversion 1; subst; by constructor.
  - assert (Hseq : lang (Seq (deriv a r1) r2) s -> lang (Seq r1 r2) (String a s)).
    { inversion 1 as [| | |? ? s1 s2 H1 H2| | | |]; subst.
      rewrite <- str_app_cons. constructor; [by apply IH1|done]. }
    assert (Hinv : lang (Seq r1 r2) (String a s) ->
                   lang (Seq (deriv a r1) r2) s \/ (lang r1 "" /\ lang r2 (String a s))).
    { inversion 1 as [| | |? ? s1 s2 H1 H2 [E1 E2] E| | | |]; subst.
      apply str_app_eq_cons in E as [[-> ->]|(s1' & -> & ->)]; [right; auto|].
      left. constructor; [by apply IH1|done]. }
    destruct (nullable r1) eqn:Hn.
    + split.
      * inversion 1; subst; [by apply Hseq|].
        change (String a s) with ("" +:+ String a s).
        constructor; [by apply nullable_lang|by apply IH2].
      * intros H. apply Hinv in H as [H|[_ H]]; [by apply lang_alt_l|].
        apply lang_alt_r. by apply IH2.
    + split; [apply Hseq|].
      intros H. apply Hinv in H as [H|[H _]]; [done|].
      apply nullable_lang in H. congruence.
  - split.
    + inversion 1; subst; [apply lang_alt_l; by apply IH1|apply lang_alt_r; by apply IH2].
    + inversion 1; subst; [apply lang_alt_l; by apply IH1|apply lang_alt_r; by apply IH2].
  - split.
    + inversion 1 as [| | |? ? s1 s2 H1 H2| | | |]; subst.
      rewrite <- str_app_cons. constructor; [by apply IH|done].
    + intros H. destruct (lang_star_cons_inv _ _ H a s eq_refl) as (s1 & s2 & -> & H1 & H2).
      constructor; [by apply IH|done].
Qed.

Lemma fullmatch_lang (r : regex) (s : string) : fullmatch r s = true <-> lang r s.
Proof.
  revert r. induction s as [|a s IH]; intros r; simpl.
  - apply nullable_lang.
  - rewrite IH. apply deriv_lang.
Qed.

End RegexFacts.

(** ** The e-mail pattern *)

Section EmailPattern.

Import Regex.

Lemma lang_star_notchr (c : ascii) (s : string) :
  lang (Star (NotChr c)) s <-> Text.contains c s = false.
Proof.
  split.
  - intros H. remember (Star (NotChr c)) as q eqn:Eq. revert Eq.
    induction H as [| | | | | |r'|r' s1 s2 H1 _ H2 IH2]; intros Eq; try discriminate.
    + reflexivity.
    + injection Eq as ->. inversion H1 as [| |? d Hd| | | | |]; subst.
      rewrite contains_app, IH2 by reflexivity. simpl.
      destruct (Ascii.eqb_spec c d); [congruence|reflexivity].
  - induction s as [|d s IH]; simpl; [constructor|].
    destruct (Ascii.eqb_spec c d) as [->|Hne]; simpl; [discriminate|].
    intros H. change (String d s) with (String d "" +:+ s).
    constructor; [constructor; congruence|auto].
Qed.

Lemma lang_plus_notchr (c : ascii) (s : string) :
  lang (Plus (NotChr c)) s <-> s <> "" /\ Text.contains c s = false.
Proof.
  unfold Plus. split.
  - inversion 1 as [| | |? ? s1 s2 H1 H2| | | |]; subst.
    inversion H1 as [| |? d Hd| | | | |]; subst.
    apply lang_star_notchr in H2. rewrite str_app_cons, str_app_nil_l. simpl.
    split; [discriminate|].
    destruct (Ascii.eqb_spec c d); [congruence|done].
  - intros [Hne H]. destruct s as [|d s]; [done|].
    simpl in H. apply orb_false_iff in H as [Hd Hs].
    change (String d s) with (String d "" +:+ s).
    constructor; [|by apply lang_star_notchr].
    constructor. intros ->. by rewrite Ascii.eqb_refl in Hd.
Qed.

Lemma lang_EMAIL_REGEX (s : string) :
  lang EMAIL_REGEX s <-> exists a b c, email_parts s a b c.
Proof.
  unfold EMAIL_REGEX, email_parts. split.
  - inversion 1 as [| | |? ? a s2 Ha H2| | | |]; subst.
    inversion H2 as [| | |? ? s3 s4 H3 H4| | | |]; subst.
    inversion H3; subst.
    inversion H4 as [| | |? ? b s5 Hb H5| | | |]; subst.
    inversion H5 as [| | |? ? s6 c H6 Hc| | | |]; subst.
    inversion H6; subst.
    apply lang_plus_notchr in Ha, Hb, Hc.
    exists a, b, c. rewrite !str_app_cons, !str_app_nil_l. auto.
  - intros (a & b & c & -> & Ha & Hb & Hc).
    apply lang_plus_notchr in Ha, Hb, Hc.
    constructor; [done|].
    change (String "@" (b +:+ String "." c)) with (String "@" "" +:+ (b +:+ (String "." "" +:+ c))).
    repeat (constructor; try done).
Qed.

Lemma before_after_at (s : string) :
  Text.contains "@" s = true ->
  s = before_at s +:+ String "@" (after_at s) /\
  Text.contains "@" (before_at s) = false /\
  Text.count "@" s = S (Text.count "@" (after_at s)).
Proof.
  induction s as [|d s IH]; simpl; [discriminate|].
  rewrite (Ascii.eqb_sym "@" d).
  destruct (Ascii.eqb d "@") eqn:E; simpl.
  - apply Ascii.eqb_eq in E as ->. intros _. rewrite str_app_nil_l. auto.
  - intros H. destruct (IH H) as (E1 & E2 & E3).
    rewrite str_app_cons, <- E1. simpl. rewrite (Ascii.eqb_sym "@" d), E, E2. auto.
Qed.

Lemma before_after_at_app (a t : string) :
  Text.contains "@" a = false ->
  before_at (a +:+ String "@" t) = a /\ after_at (a +:+ String "@" t) = t.
Proof.
  induction a as [|d a IH]; [rewrite str_app_nil_l; auto|].
  rewrite str_app_cons. simpl. rewrite (Ascii.eqb_sym "@" d).
  destruct (Ascii.eqb d "@"); simpl; [discriminate|].
  intros H. destruct (IH H) as [-> ->]. auto.
Qed.

Lemma inner_dot_cons (d e : ascii) (r : string) :
  inner_dot (String d (String e r))
  = (Ascii.eqb e "." && negb (String.eqb r "")) || inner_dot (String e r).
Proof. reflexivity. Qed.

Lemma inner_dot_parts (t : string) :
  inner_dot t = true <->
  exists b c, t = b +:+ String "." c /\ b <> "" /\ c <> "".
Proof.
  split.
  - induction t as [|d t IH]; [discriminate|].
    destruct t as [|e r]; [discriminate|].
    rewrite inner_dot_cons.
    intros H. apply orb_true_iff in H as [H|H].
    + apply andb_true_iff in H as [He Hr].
      apply Ascii.eqb_eq in He as ->. apply negb_true_iff, eqb_nil_false in Hr.
      exists (String d ""), r. rewrite str_app_cons, str_app_nil_l. done.
    + destruct (IH H) as (b & c & E & Hb & Hc).
      exists (String d b), c. rewrite str_app_cons, <- E. done.
  - intros (b & c & -> & Hb & Hc). induction b as [|d b IH]; [done|].
    destruct b as [|e b].
    + rewrite str_app_cons, str_app_nil_l, inner_dot_cons, Ascii.eqb_refl.
      apply eqb_nil_false in Hc. by rewrite Hc.
    + rewrite !str_app_cons, inner_dot_cons, <- str_app_cons.
      rewrite IH by done. apply orb_true_r.
Qed.

Lemma email_shape_parts (s : string) :
  email_shape_ok s = true <-> exists a b c, email_parts s a b c.
Proof.
  unfold email_shape_ok, email_parts. split.
  - intros H. apply andb_true_iff in H as [H Hdot].
    apply andb_true_iff in H as [Hcnt Hbefore].
    apply Nat.eqb_eq in Hcnt. apply negb_true_iff, eqb_nil_false in Hbefore.
    assert (Hin : Text.contains "@" s = true).
    { destruct (Text.contains "@" s) eqn:E; [done|].
      apply count_zero in E. lia. }
    destruct (before_after_at s Hin) as (E1 & E2 & E3).
    assert (Hafter : Text.contains "@" (after_at s) = false).
    { apply count_zero. lia. }
    apply inner_dot_parts in Hdot as (b & c & E4 & Hb & Hc).
    rewrite E4 in Hafter. rewrite contains_app in Hafter.
    apply orb_false_iff in Hafter as [Hb' Hc']. simpl in Hc'.
    exists (before_at s), b, c. rewrite <- E4. done.
  - intros (a & b & c & -> & [Ha Ha'] & [Hb Hb'] & [Hc Hc']).
    destruct (before_after_at_app a (b +:+ String "." c) Ha') as [-> ->].
    rewrite count_app. simpl. rewrite count_app. simpl.
    apply count_zero in Ha', Hb', Hc'. rewrite Ha', Hb', Hc'. simpl.
    apply eqb_nil_false in Ha. rewrite Ha. simpl.
    apply inner_dot_parts. eauto.
Qed.

Lemma fullmatch_EMAIL_REGEX (s : string) :
  fullmatch EMAIL_REGEX s = email_shape_ok s.
Proof.
  apply eq_true_iff_eq. rewrite fullmatch_lang, lang_EMAIL_REGEX, email_shape_parts.
  reflexivity.
Qed.

Lemma chop_final_lf_app (s s' : string) :
  chop_final_lf s = Some s' -> s = s' +:+ String Text.LF "".
Proof.
  revert s'. induction s as [|c s IH]; intros s'; [discriminate|].
  destruct s as [|d s].
  - simpl. destruct (Ascii.eqb_spec c Text.LF) as [->|]; [|discriminate].
    intros [= <-]. reflexivity.
  - change (chop_final_lf (String c (String d s)))
      with (option_map (String c) (chop_final_lf (String d s))).
    destruct (chop_final_lf (String d s)) as [t|]; [|discriminate].
    intros [= <-]. rewrite str_app_cons, <- (IH t eq_refl). reflexivity.
Qed.

(** For this pattern the line-feed clause of [$] adds nothing: the last
    class already takes a final line feed. *)
Lemma match_anchored_EMAIL_REGEX (s : string) :
  match_anchored EMAIL_REGEX s = email_shape_ok s.
Proof.
  unfold match_anchored. rewrite fullmatch_EMAIL_REGEX.
  destruct (chop_final_lf s) as [s'|] eqn:E; [|apply orb_false_r].
  rewrite fullmatch_EMAIL_REGEX.
  destruct (email_shape_ok s') eqn:E'; [|apply orb_false_r].
  rewrite orb_true_r. apply chop_final_lf_app in E as ->.
  apply email_shape_parts in E' as (a & b & c & -> & Ha & Hb & [Hc Hc']).
  symmetry. apply email_shape_parts. exists a, b, (c +:+ String Text.LF "").
  split; [by rewrite str_app_assoc, str_app_cons, str_app_assoc, str_app_cons|].
  repeat split; try tauto.
  - destruct c; [done|]. rewrite str_app_cons. discriminate.
  - rewrite contains_app, Hc'. reflexivity.
Qed.

End EmailPattern.

(** ** Row validation *)

Section Validation.

Lemma validate_row_foldl (r : row) (req : list string) (acc : list string) :
  foldl (fun errors field =>
           if field_missing r field
           then errors ++ ["Missing required field '" +:+ field +:+ "'"]
           else errors) acc req
  = acc ++ spec_missing_errors r req.
Proof.
  unfold spec_missing_errors. revert acc.
  induction req as [|f req IH]; intros acc; simpl; [by rewrite app_nil_r|].
  rewrite IH. destruct (field_missing r f); simpl; [|done].
  by rewrite <- app_assoc.
Qed.

Lemma validate_row_errors (r : row) (req : list string) :
  validate_row r req =
  (Nat.eqb (length (spec_missing_errors r req ++ spec_email_errors r)) 0,
   spec_missing_errors r req ++ spec_email_errors r).
Proof.
  unfold validate_row, spec_email_errors.
  rewrite validate_row_foldl, match_anchored_EMAIL_REGEX. simpl.
  destruct (String.eqb (Text.strip (get r "Email")) ""); [done|].
  destruct (email_shape_ok (Text.strip (get r "Email"))); simpl; [|done].
  by rewrite app_nil_r.
Qed.



End Validation.








(** ** Template rendering *)

Section Rendering.

Lemma bind_key_error {A B : Type} (x : outcome A) (f : A -> outcome B) (k : string) :
  x ≫= f = Raise (KeyError k) ->
  x = Raise (KeyError k) \/ exists a, x = Return a /\ f a = Raise (KeyError k).
Proof.
  destruct x as [a|e|]; simpl; intros H.
  - right. eauto.
  - left. injection H as ->. reflexivity.
  - discriminate.
Qed.

Lemma prepend_key_error (c : ascii) (x : outcome string) (k : string) :
  Format.prepend c x = Raise (KeyError k) -> x = Raise (KeyError k).
Proof.
  unfold Format.prepend. intros H.
  apply bind_key_error in H as [H|(a & _ & H)]; [done|discriminate].
Qed.

(** With a lookup that never raises [KeyError], formatting never does. *)
Lemma vformat_no_key_error (lookup : string -> outcome string) :
  (forall name k, lookup name <> Raise (KeyError k)) ->
  forall s st k, Format.vformat lookup st s <> Raise (KeyError k).
Proof.
  intros Hlookup s.
  assert (H : forall n s, String.length s <= n ->
                forall st k, Format.vformat lookup st s <> Raise (KeyError k));
    [|by apply (H (String.length s))].
  clear s. induction n as [|n IH]; intros s Hlen st k.
  - destruct s; [|simpl in Hlen; lia]. destruct st; discriminate.
  - destruct s as [|c r]; [destruct st; discriminate|].
    simpl in Hlen. destruct st as [|name_rev]; simpl.
    + destruct (Ascii.eqb c "{").
      { destruct r as [|d r']; [discriminate|]. simpl in Hlen.
        destruct (Ascii.eqb d "{"); [|apply IH; simpl; lia].
        intros H%prepend_key_error. revert H. apply IH. lia. }
      destruct (Ascii.eqb c "}").
      { destruct r as [|d r']; [discriminate|]. simpl in Hlen.
        destruct (Ascii.eqb d "}"); [|discriminate].
        intros H%prepend_key_error. revert H. apply IH. lia. }
      intros H%prepend_key_error. revert H. apply IH. lia.
    + destruct (Ascii.eqb c "}").
      { intros H. apply bind_key_error in H as [H|(v & _ & H)].
        - by apply Hlookup in H.
        - apply bind_key_error in H as [H|(rest & _ & H)]; [|discriminate].
          revert H. apply IH. lia. }
      destruct (Ascii.eqb c "{"); [discriminate|].
      destruct (Format.is_special c); [discriminate|].
      apply IH. lia.
Qed.

Lemma format_map_default_no_key_error (s : string) (kwargs : row) (k : string) :
  Format.format_map_default s kwargs <> Raise (KeyError k).
Proof.
  apply vformat_no_key_error. intros name k'. unfold Format.lookup_default.
  destruct (Format.positional name); discriminate.
Qed.

(** The body is never the source of a [KeyError]: the handler of
    [render_template] renders it again with defaults. *)
Lemma render_body_no_key_error (body : string) (safe_row : row) (k : string) :
  match Format.format body safe_row with
  | Raise (KeyError _) => Format.format_map_default body safe_row
  | other => other
  end <> Raise (KeyError k).
Proof.
  destruct (Format.format body safe_row) as [v|e|] eqn:E; try discriminate.
  destruct e; try discriminate. apply format_map_default_no_key_error.
Qed.

(** A [KeyError] of [render_template] comes from the subject line, which
    is formatted outside the handler. *)
Lemma render_template_key_error_subject (template : string) (r : row) (k : string) :
  render_template template r = Raise (KeyError k) ->
  exists line0 rest safe_row,
    Text.splitlines template = line0 :: rest /\
    Text.startswith "subject:" (Text.lower line0) = true /\
    Format.format (Text.strip (Text.drop 8 line0)) safe_row = Raise (KeyError k).
Proof.
  unfold render_template.
  set (safe_row := foldl _ r _).
  intros H. apply bind_key_error in H as [H|([subject body] & Hsb & H)].
  - destruct (Text.splitlines template) as [|line0 rest]; [discriminate|].
    destruct (Text.startswith "subject:" (Text.lower line0)) eqn:E; [|discriminate].
    apply bind_key_error in H as [H|(a & _ & H)]; [|discriminate].
    exists line0, rest, safe_row. done.
  - apply bind_key_error in H as [H|(a & _ & H)]; [|discriminate].
    by apply render_body_no_key_error in H.
Qed.

End Rendering.

(** C1 (fails on the code). A placeholder of the subject line that is not
    among Name, Title, Company, SNo and is missing from the row makes
    [render_template] raise [KeyError]: the subject is formatted outside
    the handler that protects the body. *)
Theorem render_template_subject_key_error :
  render_template ("Subject: Hi {Foo}" +:+ LF_str +:+ "Dear {Name}") ∅
  = Raise (KeyError "Foo").
Proof. vm_compute. reflexivity. Qed.

Example render_template_defaults :
  render_template ("Subject: Hi {Name}" +:+ LF_str +:+ "{Title} at {Company}: {Foo}.") ∅
  = Return ("Hi ", " at : .").
Proof. vm_compute. reflexivity. Qed.

(** ** CSV ingestion *)

Section Ingestion.

Import Csv.

Lemma collapse_space_after_commas (s : string) (after_comma : bool) :
  collapse_go after_comma (Text.replace_char TAB "," (space_after_commas s))
  = collapse_go after_comma (Text.replace_char TAB "," s).
Proof.
  revert after_comma. induction s as [|c r IH]; intros after_comma; [reflexivity|].
  cbn [space_after_commas].
  destruct (Ascii.eqb_spec c ",") as [->|Hc].
  - cbn [Text.replace_char collapse_go].
    replace (Ascii.eqb "," TAB) with false by reflexivity.
    replace (Ascii.eqb " " TAB) with false by reflexivity.
    replace (Text.isspace ",") with false by reflexivity.
    replace (Text.isspace " ") with true by reflexivity.
    replace (Ascii.eqb "," ",") with true by reflexivity.
    rewrite andb_false_r. cbn [andb]. by rewrite IH.
  - cbn [Text.replace_char collapse_go]. by rewrite !IH.
Qed.

Lemma startswith_BOM_space (s : string) :
  Text.startswith BOM (space_after_commas s) = Text.startswith BOM s.
Proof.
  destruct s as [|a [|b [|c r]]]; cbn [space_after_commas];
    repeat match goal with
           | |- context [Ascii.eqb ?x ","] => destruct (Ascii.eqb_spec x ",") as [->|?]
           end; try reflexivity.
  all: unfold BOM; cbn [Text.startswith];
    repeat match goal with
           | |- context [Ascii.eqb ?x ?y] =>
               lazymatch x with
               | ascii_of_nat _ => destruct (Ascii.eqb x y) eqn:?; cbn [andb]
               end
           end; try reflexivity; try discriminate.
Qed.

Lemma startswith_cons (c : ascii) (p s : string) (d : ascii) :
  Text.startswith (String c p) (String d s) = Ascii.eqb c d && Text.startswith p s.
Proof. reflexivity. Qed.

Lemma decode_space_after_commas (bytes : string) :
  decode_utf8_sig (space_after_commas bytes) = space_after_commas (decode_utf8_sig bytes).
Proof.
  unfold decode_utf8_sig. rewrite startswith_BOM_space.
  destruct (Text.startswith BOM bytes) eqn:E; [|reflexivity].
  unfold BOM in E.
  destruct bytes as [|a [|b [|c r]]];
    try (rewrite ?startswith_cons in E; cbn [Text.startswith] in E;
         rewrite ?andb_false_r in E; discriminate).
  rewrite !startswith_cons in E.
  apply andb_true_iff in E as [Ea E]. apply andb_true_iff in E as [Eb E].
  apply andb_true_iff in E as [Ec _].
  apply Ascii.eqb_eq in Ea, Eb, Ec. subst a b c. reflexivity.
Qed.

Lemma read_csv_text_space_after_commas
    (sniff : string -> option ascii) (reader : ascii -> string -> list (list string))
    (raw : string) :
  read_csv_text sniff reader (space_after_commas raw) = read_csv_text sniff reader raw.
Proof.
  unfold read_csv_text, collapse_comma_space.
  by rewrite collapse_space_after_commas.
Qed.

End Ingestion.

(** C9. A contacts file written with one space after each comma is read
    as the same ordered sequence of rows as the same content without
    those spaces, whatever the delimiter detection and the record parser
    of the [csv] library do on the normalised text. *)
Theorem read_csv_space_after_commas
    (sniff : string -> option ascii) (reader : ascii -> string -> list (list string))
    (files : gmap string string) (path clean : string) :
  Csv.read_csv sniff reader (<[path := Csv.space_after_commas clean]> files) path
  = Csv.read_csv sniff reader (<[path := clean]> files) path.
Proof.
  unfold Csv.read_csv. rewrite !lookup_insert_eq.
  rewrite decode_space_after_commas. apply read_csv_text_space_after_commas.
Qed.

(** ** The run log *)

Section RunLog.

Lemma log_text_app (rows1 rows2 : list (list string)) :
  log_text (rows1 ++ rows2) = log_text rows1 +:+ log_text rows2.
Proof.
  induction rows1 as [|fields rows1 IH]; [reflexivity|].
  simpl. by rewrite IH, str_app_assoc.
Qed.

Lemma path_exists_true (w : world) (path : string) :
  path_exists w path = true <-> is_Some (files w !! path).
Proof. unfold path_exists. apply bool_decide_eq_true. Qed.

Lemma path_exists_false (w : world) (path : string) :
  path_exists w path = false <-> files w !! path = None.
Proof.
  unfold path_exists. rewrite bool_decide_eq_false. symmetry. apply eq_None_not_Some.
Qed.

Lemma write_log_row_files (log_path : string) (r : row) (status message : string) (w : world) :
  files (write_log_row log_path r status message w)
  = <[log_path :=
        default "" (files w !! log_path) +:+
        ((if path_exists w log_path then "" else CsvWriter.writerow LOG_HEADER) +:+
         CsvWriter.writerow (log_fields (utcnow w (clock_reads w)) r status message))]>
      (files w).
Proof. reflexivity. Qed.

End RunLog.

(** C8. [write_log_row] writes at the end of the log one row with the
    columns timestamp, SNo, Name, Email, Company, Title, status, message,
    after the header row when the file did not exist.  What the file held
    is a prefix of what it holds afterwards, a log of [n] rows becomes a
    log of [n + 1] rows with the same first [n], and no other file
    changes. *)
Theorem write_log_row_appends
    (log_path : string) (r : row) (status message : string) (w : world) :
  let w' := write_log_row log_path r status message w in
  let new_row :=
    [utcnow w (clock_reads w); get r "SNo"; get r "Name"; get r "Email";
     get r "Company"; get r "Title"; status; message] in
  (forall old, files w !! log_path = Some old ->
     files w' !! log_path = Some (old +:+ CsvWriter.writerow new_row)) /\
  (files w !! log_path = None ->
     files w' !! log_path
     = Some (CsvWriter.writerow
               ["timestamp"; "SNo"; "Name"; "Email"; "Company"; "Title"; "status"; "message"]
             +:+ CsvWriter.writerow new_row)) /\
  (forall rows, files w !! log_path = Some (log_text rows) ->
     files w' !! log_path = Some (log_text (rows ++ [new_row])) /\
     length (rows ++ [new_row]) = S (length rows)) /\
  (forall path, path <> log_path -> files w' !! path = files w !! path) /\
  events w' = events w.
Proof.
  intros w' new_row. subst w'. rewrite write_log_row_files.
  change (log_fields _ r status message) with new_row.
  repeat split.
  - intros old Hold. rewrite lookup_insert_eq.
    assert (E : path_exists w log_path = true) by (apply path_exists_true; eauto).
    rewrite E, Hold. reflexivity.
  - intros Hnone. rewrite lookup_insert_eq.
    assert (E : path_exists w log_path = false) by by apply path_exists_false.
    rewrite E, Hnone. reflexivity.
  - rewrite lookup_insert_eq.
    assert (E : path_exists w log_path = true) by (apply path_exists_true; eauto).
    rewrite E, H, log_text_app. simpl. by rewrite str_app_nil_r.
  - rewrite length_app. simpl. lia.
  - intros path Hne. by rewrite lookup_insert_ne.
Qed.

Lemma write_log_row_appends_witness :
  let w := World {["send_log.csv" := log_text [LOG_HEADER]]} [] (fun _ => Accepted) 0
             (fun _ => "2024-05-01T10:00:00") 0 in
  files (write_log_row "send_log.csv" {["SNo" := "1"; "Email" := "jo@x.org"]}
           "sent" "sent" w) !! "send_log.csv"
  = Some (log_text [LOG_HEADER;
                    ["2024-05-01T10:00:00"; "1"; ""; "jo@x.org"; ""; ""; "sent"; "sent"]]).
Proof.
  intros w.
  assert (Hlog : files w !! "send_log.csv" = Some (log_text [LOG_HEADER]))
    by (vm_compute; reflexivity).
  destruct (write_log_row_appends "send_log.csv" {["SNo" := "1"; "Email" := "jo@x.org"]}
              "sent" "sent" w) as (_ & _ & H & _).
  destruct (H [LOG_HEADER] Hlog) as [E _].
  etransitivity; [exact E|]. vm_compute. reflexivity.
Defined.

Example write_log_row_quotes :
  CsvWriter.writerow ["t"; "1"; "Jo"; "jo@x.org"; "Acme, Inc"; "HR"; "failed"; "x"]
  = "t,1,Jo,jo@x.org," +:+ String CsvWriter.DQUOTE "Acme, Inc" +:+ String CsvWriter.DQUOTE ",HR,failed,x"
    +:+ String Text.CR (String Text.LF "").
Proof. vm_compute. reflexivity. Qed.

(** ** The dispatcher *)

Section Dispatch.

Lemma advance_nil (w : world) : advance [] 0 w = w.
Proof.
  destruct w. unfold advance. simpl. by rewrite app_nil_r, Nat.add_0_r.
Qed.

Lemma advance_advance (evs1 evs2 : list event) (n1 n2 : nat) (w : world) :
  advance evs2 n2 (advance evs1 n1 w) = advance (evs1 ++ evs2) (n1 + n2) w.
Proof.
  unfold advance. simpl. by rewrite app_assoc, Nat.add_assoc.
Qed.

Lemma emit_advance (e : event) (w : world) : emit e w = advance [e] 0 w.
Proof. unfold emit, advance. by rewrite Nat.add_0_r. Qed.

Section Loop.

Variables (host : string) (port : Z) (M : Z) (b : Q) (msg : EmailMessage).

Let loop := send_loop host port M b msg.

Lemma send_loop_step (fuel : nat) (a : Z) (w : world) :
  (a < M)%Z ->
  loop (S fuel) a w =
  match server w (sessions w) with
  | Accepted =>
      Some ((true, "sent"), advance [Connect host port (a + 1); Delivered msg] 1 w)
  | TransportError e =>
      if (a + 1 >=? M)%Z then
        Some ((false, "smtp error after " +:+ pretty (a + 1)%Z +:+ " attempts: " +:+ e),
              advance [Connect host port (a + 1)] 1 w)
      else
        loop fuel (a + 1)%Z
          (advance [Connect host port (a + 1); Sleep Backoff (Qpower b (a + 1))] 1 w)
  | OtherError e =>
      Some ((false, "unexpected error: " +:+ e), advance [Connect host port (a + 1)] 1 w)
  end.
Proof.
  intros Ha. unfold loop. simpl.
  apply Z.ltb_lt in Ha. rewrite Ha.
  unfold emit, advance. simpl.
  destruct (server w (sessions w)) as [|e|e]; rewrite ?Nat.add_1_r, <- ?app_assoc; done.
Qed.

Lemma send_loop_exit (fuel : nat) (a : Z) (w : world) :
  (M <= a)%Z -> loop fuel a w = Some ((false, "max retries reached"), w).
Proof.
  intros Ha. unfold loop.
  assert (E : (a <? M)%Z = false) by by apply Z.ltb_ge.
  destruct fuel; simpl; by rewrite E.
Qed.



End Loop.

Lemma send_email_attachment_ok
    (user pass to subject body : string) (path : option string) (dry_run : bool)
    (host : string) (port M : Z) (b : Q) (w : world) :
  attachment_ok w path = true ->
  send_email user pass to subject body path dry_run host port M b w
  = if dry_run
    then Some ((true, "dry-run previewed"),
               advance [preview_event to subject body path] 0 w)
    else send_loop host port M b (built_message user to subject body path w)
           (Z.to_nat M) 0 w.
Proof.
  unfold send_email, attachment_ok, built_message, preview_event.
  destruct path as [p|]; [|intros _; destruct dry_run; [by rewrite emit_advance|done]].
  destruct (String.eqb p "") eqn:Ep; simpl;
    [intros _; destruct dry_run; [by rewrite emit_advance|done]|].
  intros Hex. unfold attach_file_to_message.
  pose proof Hex as Hex'. apply path_exists_true in Hex' as [data Hdata]. rewrite Hdata.
  destruct dry_run; [|done].
  by rewrite emit_advance, Hex.
Qed.

Lemma send_email_attachment_missing
    (user pass to subject body p : string) (dry_run : bool)
    (host : string) (port M : Z) (b : Q) (w : world) :
  p <> "" -> files w !! p = None ->
  send_email user pass to subject body (Some p) dry_run host port M b w
  = Some ((false, "Attachment error: Attachment not found: " +:+ p), w).
Proof.
  intros Hp Hnone. unfold send_email, attach_file_to_message.
  apply eqb_nil_false in Hp. rewrite Hp, Hnone. reflexivity.
Qed.

Lemma attachment_ok_false (w : world) (path : option string) :
  attachment_ok w path = false ->
  exists p, path = Some p /\ p <> "" /\ files w !! p = None.
Proof.
  unfold attachment_ok. destruct path as [p|]; [|discriminate].
  intros H. apply orb_false_iff in H as [Hp Hex].
  exists p. split; [done|]. split; [by apply eqb_nil_false|by apply path_exists_false].
Qed.


End Dispatch.



Section Backoff.




End Backoff.



(** ** The orchestrator *)

Section Orchestrator.

Lemma strip_nil : Text.strip "" = "".
Proof. reflexivity. Qed.



Section Row.

Variable args : Args.
Variables gmail_user gmail_app_pass : option string.
Variable template_text : string.
Variable len_rows : nat.









End Row.


Section Run.

Variable args : Args.
Variables gmail_user gmail_app_pass : option string.
Variable template_text : string.


End Run.

End Orchestrator.










Section Abort.

Variable args : Args.
Variables gmail_user gmail_app_pass : option string.
Variable template_text : string.
Variable len_rows : nat.




End Abort.




Section RenderingMore.

Lemma vformat_key_error (lookup : string -> outcome string) (P : string -> Prop) :
  (forall name k, lookup name = Raise (KeyError k) -> P k) ->
  forall s st k, Format.vformat lookup st s = Raise (KeyError k) -> P k.
Proof.
  intros Hlookup s.
  assert (H : forall n s, String.length s <= n ->
                forall st k, Format.vformat lookup st s = Raise (KeyError k) -> P k);
    [|by apply (H (String.length s))].
  clear s. induction n as [|n IH]; intros s Hlen st k.
  - destruct s; [|simpl in Hlen; lia]. destruct st; discriminate.
  - destruct s as [|c r]; [destruct st; discriminate|].
    simpl in Hlen. destruct st as [|name_rev]; simpl.
    + destruct (Ascii.eqb c "{").
      { destruct r as [|d r']; [discriminate|]. simpl in Hlen.
        destruct (Ascii.eqb d "{"); [|apply IH; simpl; lia].
        intros H%prepend_key_error. revert H. apply IH. lia. }
      destruct (Ascii.eqb c "}").
      { destruct r as [|d r']; [discriminate|]. simpl in Hlen.
        destruct (Ascii.eqb d "}"); [|discriminate].
        intros H%prepend_key_error. revert H. apply IH. lia. }
      intros H%prepend_key_error. revert H. apply IH. lia.
    + destruct (Ascii.eqb c "}").
      { intros H. apply bind_key_error in H as [H|(v & _ & H)].
        - by apply Hlookup in H.
        - apply bind_key_error in H as [H|(rest & _ & H)]; [|discriminate].
          revert H. apply IH. lia. }
      destruct (Ascii.eqb c "{"); [discriminate|].
      destruct (Format.is_special c); [discriminate|].
      apply IH. lia.
Qed.

Lemma format_key_error_missing (s : string) (kwargs : row) (k : string) :
  Format.format s kwargs = Raise (KeyError k) -> kwargs !! k = None.
Proof.
  unfold Format.format.
  apply (vformat_key_error (Format.lookup_kwargs kwargs) (fun k => kwargs !! k = None)).
  intros name k'. unfold Format.lookup_kwargs.
  destruct (Format.positional name); [discriminate|].
  destruct (kwargs !! name) eqn:E; [discriminate|]. by intros [= <-].
Qed.

Lemma setdefault_lookup (d : row) (k0 v k : string) :
  setdefault d k0 v !! k
  = if decide (k0 = k) then Some (default v (d !! k0)) else d !! k.
Proof.
  unfold setdefault. destruct (decide (k0 = k)) as [->|Hne].
  - destruct (d !! k) eqn:E; [by rewrite E|]. by rewrite lookup_insert_eq.
  - destruct (d !! k0); [done|]. by rewrite lookup_insert_ne.
Qed.

(** The safe copy of the row that [render_template] builds. *)
Lemma safe_row_lookup (r : row) (k : string) :
  foldl (fun d k => setdefault d k "") r ["Name"; "Title"; "Company"; "SNo"] !! k
  = if bool_decide (k ∈ ["Name"; "Title"; "Company"; "SNo"])
    then Some (get r k) else r !! k.
Proof.
  cbn [foldl]. unfold get. rewrite !setdefault_lookup.
  repeat (case_decide; subst;
          [rewrite ?setdefault_lookup;
           repeat (case_decide; [discriminate|]);
           rewrite bool_decide_eq_true_2 by repeat constructor; reflexivity|]).
  rewrite bool_decide_eq_false_2; [reflexivity|].
  rewrite !elem_of_cons, elem_of_nil. intuition congruence.
Qed.

End RenderingMore.

(** X7. [render_template] raises [KeyError] only for a placeholder of a
    leading Subject line whose name is neither a key of the row nor one
    of Name, Title, Company, SNo; a template without a Subject line never
    raises [KeyError]. *)
Theorem render_template_key_error_only_subject
    (template : string) (r : row) (k : string) :
  render_template template r = Raise (KeyError k) ->
  (exists line0 rest,
     Text.splitlines template = line0 :: rest /\
     Text.startswith "subject:" (Text.lower line0) = true) /\
  r !! k = None /\
  k ∉ ["Name"; "Title"; "Company"; "SNo"].
Proof.
  unfold render_template.
  set (safe_row := foldl _ r _).
  intros H. apply bind_key_error in H as [H|([subject body] & Hsb & H)].
  - destruct (Text.splitlines template) as [|line0 rest]; [discriminate|].
    destruct (Text.startswith "subject:" (Text.lower line0)) eqn:E; [|discriminate].
    apply bind_key_error in H as [H|(a & _ & H)]; [|discriminate].
    split; [by eexists _, _|].
    apply format_key_error_missing in H. subst safe_row.
    rewrite safe_row_lookup in H. case_bool_decide; [discriminate|done].
  - apply bind_key_error in H as [H|(a & _ & H)]; [|discriminate].
    by apply render_body_no_key_error in H.
Qed.

Lemma render_template_key_error_only_subject_witness :
  (exists line0 rest,
     Text.splitlines "Subject: {Team}" = line0 :: rest /\
     Text.startswith "subject:" (Text.lower line0) = true) /\
  sample_good !! "Team" = None /\
  "Team" ∉ ["Name"; "Title"; "Company"; "SNo"].
Proof.
  apply (render_template_key_error_only_subject "Subject: {Team}" sample_good "Team").
  vm_compute. reflexivity.
Defined.

Section DefaultTemplate.

Lemma lookup_kwargs_safe (r : row) (k : string) :
  k ∈ ["Name"; "Title"; "Company"; "SNo"] ->
  Format.lookup_kwargs
    (foldl (fun d k => setdefault d k "") r ["Name"; "Title"; "Company"; "SNo"]) k
  = Return (get r k).
Proof.
  intros Hk. unfold Format.lookup_kwargs. rewrite safe_row_lookup.
  rewrite bool_decide_eq_true_2 by done.
  assert (E : Format.positional k = false).
  { rewrite !elem_of_cons in Hk.
    destruct Hk as [->|[->|[->|[->|Hk]]]]; [reflexivity..|by apply elem_of_nil in Hk]. }
  by rewrite E.
Qed.

Lemma default_subject_format (lookup : string -> outcome string) :
  Format.vformat lookup Format.Literal
    "Connecting about potential opportunities at {Company}"
  = v ← lookup "Company";
    Return ("Connecting about potential opportunities at " +:+ (v +:+ "")).
Proof. vm_compute. destruct (lookup "Company"); reflexivity. Qed.

Lemma default_body_format (lookup : string -> outcome string) (name company title : string) :
  lookup "Name" = Return name ->
  lookup "Company" = Return company ->
  lookup "Title" = Return title ->
  exists body,
    Format.vformat lookup Format.Literal
      (Text.lstrip (Text.join LF_str (tail (Text.splitlines DEFAULT_TEMPLATE))))
    = Return body.
Proof.
  intros Hn Hc Ht. vm_compute. rewrite Hn, Hc, Ht. eexists. reflexivity.
Qed.

(** [render_template] on a template with a Subject line. *)
Lemma render_template_subject_line (template : string) (r : row)
    (line0 : string) (rest : list string) :
  Text.splitlines template = line0 :: rest ->
  Text.startswith "subject:" (Text.lower line0) = true ->
  let safe_row :=
    foldl (fun d k => setdefault d k "") r ["Name"; "Title"; "Company"; "SNo"] in
  let body := Text.lstrip (Text.join LF_str rest) in
  render_template template r
  = subject ← Format.format (Text.strip (Text.drop 8 line0)) safe_row;
    body_rendered ←
      match Format.format body safe_row with
      | Raise (KeyError _) => Format.format_map_default body safe_row
      | other => other
      end;
    Return (subject, body_rendered).
Proof.
  intros Hlines Hsubject safe_row body. unfold render_template.
  fold safe_row. rewrite Hlines, Hsubject.
  destruct (Format.format (Text.strip (Text.drop 8 line0)) safe_row); reflexivity.
Qed.

End DefaultTemplate.

(** X8. When the template file does not exist, [load_template] gives the
    built-in template, and [render_template] renders it for every row,
    without raising: the subject is the fixed opening followed by the
    Company of the row (empty when the row has none). *)
Theorem load_template_default_renders (path : string) (w : world) (r : row) :
  files w !! path = None ->
  exists body,
    render_template (load_template path w) r
    = Return ("Connecting about potential opportunities at " +:+ get r "Company", body).
Proof.
  intros Hnone. unfold load_template. rewrite Hnone.
  assert (Hlines : Text.splitlines DEFAULT_TEMPLATE
                   = "Subject: Connecting about potential opportunities at {Company}"
                     :: tail (Text.splitlines DEFAULT_TEMPLATE))
    by (vm_compute; reflexivity).
  rewrite (render_template_subject_line _ r _ _ Hlines) by (vm_compute; reflexivity).
  replace (Text.strip (Text.drop 8
             "Subject: Connecting about potential opportunities at {Company}"))
    with "Connecting about potential opportunities at {Company}"
    by (vm_compute; reflexivity).
  destruct (default_body_format
              (Format.lookup_kwargs
                 (foldl (fun d k => setdefault d k "") r ["Name"; "Title"; "Company"; "SNo"]))
              (get r "Name") (get r "Company") (get r "Title"))
    as [body Hbody]; try (apply lookup_kwargs_safe; repeat constructor).
  exists body. unfold Format.format.
  rewrite default_subject_format, Hbody, lookup_kwargs_safe by repeat constructor.
  cbn [mbind outcome_bind]. by rewrite str_app_nil_r.
Qed.

Lemma load_template_default_renders_witness :
  exists body,
    render_template (load_template "email_template.txt" sample_world) sample_good
    = Return ("Connecting about potential opportunities at " +:+ get sample_good "Company",
              body).
Proof.
  apply (load_template_default_renders "email_template.txt" sample_world sample_good).
  vm_compute. reflexivity.
Defined.

Section LoopOutcome.

Variables (host : string) (port : Z) (M : Z) (b : Q) (msg : EmailMessage).


(** The loop delivers the message exactly when it reports success, and
    then as its last event. *)
Lemma send_loop_delivery (fuel : nat) :
  forall (a : Z) (w : world) (success : bool) (message : string) w',
    send_loop host port M b msg fuel a w = Some ((success, message), w') ->
    exists evs n,
      w' = advance evs n w /\
      if success
      then message = "sent" /\
           exists evs0, evs = evs0 ++ [Delivered msg] /\
                        Forall (fun e => is_delivered e = false) evs0
      else Forall (fun e => is_delivered e = false) evs.
Proof.
  induction fuel as [|fuel IH]; intros a w success message w' Hrun.
  - simpl in Hrun. destruct (a <? M)%Z; [discriminate|].
    injection Hrun as <- <- <-. exists [], 0. by rewrite advance_nil.
  - destruct (Z.lt_ge_cases a M) as [Ha|Ha].
    + rewrite send_loop_step in Hrun by done.
      destruct (server w (sessions w)) as [|e|e].
      * injection Hrun as <- <- <-. eexists _, _. split; [done|]. split; [done|].
        exists [Connect host port (a + 1)]. split; [done|]. by repeat constructor.
      * destruct (a + 1 >=? M)%Z.
        { injection Hrun as <- <- <-. eexists _, _. split; [done|].
          by repeat constructor. }
        apply IH in Hrun as (evs & n & -> & H). rewrite advance_advance.
        eexists _, _. split; [done|]. destruct success.
        { destruct H as (-> & evs0 & -> & H0). split; [done|].
          eexists (_ ++ evs0). rewrite app_assoc. split; [done|].
          apply Forall_app. split; [by repeat constructor|done]. }
        apply Forall_app. split; [by repeat constructor|done].
      * injection Hrun as <- <- <-. eexists _, _. split; [done|].
        by repeat constructor.
    + rewrite send_loop_exit in Hrun by done.
      injection Hrun as <- <- <-. exists [], 0. by rewrite advance_nil.
Qed.

End LoopOutcome.





(** X11. A live [send_email] is all or nothing: it only extends the trace
    and the session count; when it returns success the message is [sent]
    and exactly one SMTP session completed without an exception, the
    last one, for the message it built; when it returns failure no
    session completed. *)
Theorem send_email_delivery
    (user pass to subject body : string) (path : option string)
    (host : string) (port M : Z) (b : Q) (w : world)
    (success : bool) (message : string) (w' : world) :
  send_email user pass to subject body path false host port M b w
  = Some ((success, message), w') ->
  exists evs n,
    w' = advance evs n w /\
    if success
    then message = "sent" /\
         exists evs0,
           evs = evs0 ++ [Delivered (built_message user to subject body path w)] /\
           Forall (fun e => is_delivered e = false) evs0
    else Forall (fun e => is_delivered e = false) evs.
Proof.
  destruct (attachment_ok w path) eqn:Hok.
  - rewrite send_email_attachment_ok by done. apply send_loop_delivery.
  - apply attachment_ok_false in Hok as (p & -> & Hp & Hnone).
    rewrite send_email_attachment_missing by done.
    intros [= <- <- <-]. exists [], 0. by rewrite advance_nil.
Qed.

Lemma send_email_delivery_witness :
  exists evs n,
    advance [Connect "smtp.gmail.com" 587 1; Sleep Backoff 2;
             Connect "smtp.gmail.com" 587 2; Sleep Backoff 4;
             Connect "smtp.gmail.com" 587 3;
             Delivered (Message "me@x.org" "jo@x.org" "Hi" "Hello" [])] 3 sample_world
    = advance evs n sample_world /\
    "sent" = "sent" /\
    exists evs0,
      evs = evs0 ++ [Delivered (built_message "me@x.org" "jo@x.org" "Hi" "Hello" None
                                  sample_world)] /\
      Forall (fun e => is_delivered e = false) evs0.
Proof.
  apply (send_email_delivery "me@x.org" "pw" "jo@x.org" "Hi" "Hello" None
           DEFAULT_SMTP_HOST DEFAULT_SMTP_PORT DEFAULT_MAX_RETRIES DEFAULT_RETRY_BACKOFF
           sample_world true "sent").
  vm_compute. reflexivity.
Defined.

Section IngestionMore.

Import Csv.

Lemma collapse_go_idempotent (s : string) (after_comma : bool) :
  collapse_go after_comma (collapse_go after_comma s) = collapse_go after_comma s.
Proof.
  revert after_comma. induction s as [|c r IH]; intros after_comma; [reflexivity|].
  cbn [collapse_go].
  destruct (after_comma && Text.isspace c) eqn:E.
  - apply andb_true_iff in E as [-> _]. apply IH.
  - cbn [collapse_go]. rewrite E. by rewrite IH.
Qed.

Lemma replace_char_absent (a b : ascii) (s : string) :
  Text.contains a s = false -> Text.replace_char a b s = s.
Proof.
  induction s as [|c r IH]; [reflexivity|].
  cbn [Text.contains Text.replace_char]. rewrite (Ascii.eqb_sym a c).
  destruct (Ascii.eqb c a); [discriminate|].
  intros H. by rewrite IH.
Qed.

Lemma contains_replace_char (a b : ascii) (s : string) :
  a <> b -> Text.contains a (Text.replace_char a b s) = false.
Proof.
  intros Hne. induction s as [|c r IH]; [reflexivity|].
  cbn [Text.contains Text.replace_char]. rewrite IH, orb_false_r.
  destruct (Ascii.eqb_spec c a) as [->|Hc]; by apply Ascii.eqb_neq.
Qed.

Lemma contains_collapse_go (a : ascii) (s : string) (after_comma : bool) :
  Text.contains a s = false -> Text.contains a (collapse_go after_comma s) = false.
Proof.
  revert after_comma. induction s as [|c r IH]; intros after_comma; [done|].
  cbn [Text.contains collapse_go]. intros H. apply orb_false_iff in H as [Hc Hr].
  destruct (after_comma && Text.isspace c); [by apply IH|].
  cbn [Text.contains]. by rewrite Hc, IH.
Qed.

End IngestionMore.

(** X12. The normalisation of [read_csv] (tabs to commas, then removal of
    the white space that follows a comma) is idempotent, so reading text
    that is already normalised gives the same result as reading the
    original text. *)
Theorem read_csv_normalization_idempotent
    (sniff : string -> option ascii) (reader : ascii -> string -> list (list string))
    (raw : string) :
  let normalize s := Csv.collapse_comma_space (Text.replace_char Csv.TAB "," s) in
  normalize (normalize raw) = normalize raw /\
  Csv.read_csv_text sniff reader (normalize raw) = Csv.read_csv_text sniff reader raw.
Proof.
  intros normalize.
  assert (E : normalize (normalize raw) = normalize raw).
  { subst normalize. cbv beta. unfold Csv.collapse_comma_space.
    rewrite (replace_char_absent Csv.TAB).
    - apply collapse_go_idempotent.
    - apply contains_collapse_go, contains_replace_char. discriminate. }
  split; [exact E|].
  unfold Csv.read_csv_text. fold (normalize (normalize raw)). fold (normalize raw).
  by rewrite E.
Qed.

Section LongRecords.

Import Csv.






End LongRecords.





(** X15. [main] gives up with exit status 1 before any row is processed,
    leaving the world as it was (no log row, no SMTP session), when live
    sending is asked for and a credential is unset or empty, and also
    when the contacts file does not exist. *)
Theorem main_aborts
    (sniff : string -> option ascii) (reader : ascii -> string -> list (list string))
    (args : Args) (gmail_user gmail_app_pass : option string) (w : world) :
  (arg_send args = true ->
   is_falsy gmail_user = true \/ is_falsy gmail_app_pass = true ->
   main sniff reader args gmail_user gmail_app_pass w = Some (Exit1, w)) /\
  (files w !! arg_csv args = None ->
   main sniff reader args gmail_user gmail_app_pass w = Some (Exit1, w)).
Proof.
  unfold main. split.
  - intros -> H. apply orb_true_iff in H. by rewrite H.
  - intros Hnone.
    destruct (arg_send args && (is_falsy gmail_user || is_falsy gmail_app_pass)); [done|].
    unfold Csv.read_csv. by rewrite Hnone.
Qed.

Lemma main_aborts_witness :
  main (fun _ => None) (fun _ _ => []) (sample_args true) (Some "me@x.org") None
    sample_world = Some (Exit1, sample_world) /\
  main (fun _ => None) (fun _ _ => []) (sample_args false) None None sample_world
  = Some (Exit1, sample_world).
Proof.
  destruct (main_aborts (fun _ => None) (fun _ _ => []) (sample_args true)
              (Some "me@x.org") None sample_world) as [H1 _].
  destruct (main_aborts (fun _ => None) (fun _ _ => []) (sample_args false)
              None None sample_world) as [_ H2].
  split.
  - apply H1; [reflexivity|right; reflexivity].
  - apply H2. vm_compute. reflexivity.
Defined.



Section Trimming.

Lemma rstrip_nil_iff (s : string) : Text.rstrip s = "" <-> Text.all_space s = true.
Proof.
  induction s as [|c r IH]; [done|].
  cbn [Text.rstrip Text.all_space].
  destruct (Text.isspace c); cbn [andb].
  - destruct (String.eqb (Text.rstrip r) "") eqn:E.
    + apply eqb_nil_true in E. split; [intros _; by apply IH|done].
    + apply eqb_nil_false in E. split; [discriminate|]. intros H. by apply IH in H.
  - split; discriminate.
Qed.

Lemma rstrip_idempotent (s : string) : Text.rstrip (Text.rstrip s) = Text.rstrip s.
Proof.
  induction s as [|c r IH]; [reflexivity|].
  cbn [Text.rstrip].
  destruct (Text.isspace c && String.eqb (Text.rstrip r) "") eqn:E; [reflexivity|].
  cbn [Text.rstrip]. by rewrite IH, E.
Qed.

Lemma lstrip_head (s : string) :
  Text.lstrip s = "" \/
  exists c r, Text.lstrip s = String c r /\ Text.isspace c = false.
Proof.
  induction s as [|c r IH]; [by left|].
  cbn [Text.lstrip]. destruct (Text.isspace c) eqn:E; [done|]. right. eauto.
Qed.

Lemma lstrip_rstrip_head (c : ascii) (r : string) :
  Text.isspace c = false ->
  Text.lstrip (Text.rstrip (String c r)) = Text.rstrip (String c r).
Proof.
  intros Hc. cbn [Text.rstrip]. rewrite Hc. cbn [andb Text.lstrip]. by rewrite Hc.
Qed.

(** [strip] is idempotent. *)
Lemma strip_idempotent (s : string) : Text.strip (Text.strip s) = Text.strip s.
Proof.
  unfold Text.strip.
  destruct (lstrip_head s) as [->|(c & r & -> & Hc)]; [reflexivity|].
  by rewrite lstrip_rstrip_head, rstrip_idempotent.
Qed.

Lemma get_strip (r : row) (key : string) :
  get (Text.strip <$> r) key = Text.strip (get r key).
Proof.
  unfold get. rewrite lookup_fmap. by destruct (r !! key).
Qed.

Lemma field_missing_strip (r : row) (field : string) :
  field_missing (Text.strip <$> r) field = field_missing r field.
Proof.
  unfold field_missing. rewrite lookup_fmap.
  destruct (r !! field); [|done]. cbn [fmap option_fmap option_map].
  by rewrite strip_idempotent.
Qed.

End Trimming.

(** X17. The verdict and the errors of [validate_row] do not change when
    every value of the row is trimmed first, as [read_csv] does: the
    validator trims the values it looks at, and trimming twice is
    trimming once. *)
Theorem validate_row_trimmed (r : row) (required_fields : list string) :
  validate_row (Text.strip <$> r) required_fields = validate_row r required_fields.
Proof.
  rewrite !validate_row_errors.
  assert (E1 : spec_missing_errors (Text.strip <$> r) required_fields
               = spec_missing_errors r required_fields).
  { unfold spec_missing_errors. f_equal.
    induction required_fields as [|f l IH]; [done|].
    cbn [List.filter]. by rewrite field_missing_strip, IH. }
  assert (E2 : spec_email_errors (Text.strip <$> r) = spec_email_errors r).
  { unfold spec_email_errors. by rewrite get_strip, strip_idempotent. }
  by rewrite E1, E2.
Qed.
